(** * Symbol table and semantic analyzer of the Pascal interpreter

    A shallow embedding of [python/pascal-interpreter/symbol_table.py]:
    the symbol classes, the [SymbolTable] over an [OrderedDict], and the
    [SymbolTableBuilder] node visitor, followed by the properties of the
    analysis pass. *)

From Stdlib Require Import String List Bool Arith Lia.
Import ListNotations.
Open Scope string_scope.

Set Implicit Arguments.
Set Warnings "-register-all".

(** ** Symbols *)

(** [Symbol] with its two subclasses.  A [BuiltinTypeSymbol] leaves the
    [type] attribute at its default [None]; the [type] of a [VarSymbol] is
    whatever the caller passes, which in [visit_VarDecl] is the result of a
    table lookup and so may be [None]. *)
Inductive Symbol : Type :=
| BuiltinTypeSymbol (name : string)
| VarSymbol (name : string) (type : option Symbol).

Definition name (s : Symbol) : string :=
  match s with
  | BuiltinTypeSymbol n => n
  | VarSymbol n _ => n
  end.

Definition type (s : Symbol) : option Symbol :=
  match s with
  | BuiltinTypeSymbol _ => None
  | VarSymbol _ t => t
  end.

(** ** OrderedDict

    Python's [collections.OrderedDict], keyed by strings: the items in
    insertion order.  [d.get(k)] is [None] for a missing key; [d[k] = v]
    replaces the value of an existing key where it stands and appends a new
    key at the end. *)
Module OrderedDict.
Section WithValue.
Variable V : Type.

Definition t : Type := list (string * V).

Definition empty : t := [].

Fixpoint get (k : string) (d : t) : option V :=
  match d with
  | [] => None
  | (k', v') :: rest => if String.eqb k k' then Some v' else get k rest
  end.

Fixpoint setitem (k : string) (v : V) (d : t) : t :=
  match d with
  | [] => [(k, v)]
  | (k', v') :: rest =>
      if String.eqb k k' then (k', v) :: rest
      else (k', v') :: setitem k v rest
  end.

Definition keys (d : t) : list string := map fst d.

Definition values (d : t) : list V := map snd d.

(** The representation invariant of a dict: no key occurs twice. *)
Definition wf (d : t) : Prop := NoDup (keys d).
End WithValue.
End OrderedDict.

(** ** Exceptions and the monad of the methods

    Both [raise] sites of the module raise [NameError]; they differ in the
    message, which is either [repr(var_name)] or
    ["{} declared more than once!".format(repr(var_name))]. *)
Inductive message : Type :=
| repr (var_name : string)
| declared_more_than_once (var_name : string).

Inductive exn : Type :=
| NameError (msg : message).

(** The identifier an exception names. *)
Definition named (e : exn) : string :=
  match e with
  | NameError (repr n) => n
  | NameError (declared_more_than_once n) => n
  end.

(** How a call ends: it returns, it raises, or (only for the fuel-bounded
    recursion of [visit_fuel] below) the call depth is exhausted. *)
Inductive outcome (A : Type) : Type :=
| Return (a : A)
| Raise (e : exn)
| OutOfFuel.
Arguments Return {A} a.
Arguments Raise {A} e.
Arguments OutOfFuel {A}.

(** A method is a function from the state of [self] before the call to the
    outcome and the state after it; a raised exception leaves the mutations
    made so far in place. *)
Definition M (St A : Type) : Type := St -> outcome A * St.

Definition ret {St A} (a : A) : M St A := fun s => (Return a, s).

Definition raise {St A} (e : exn) : M St A := fun s => (Raise e, s).

Definition bind {St A B} (m : M St A) (k : A -> M St B) : M St B :=
  fun s =>
    match m s with
    | (Return a, s') => k a s'
    | (Raise e, s') => (Raise e, s')
    | (OutOfFuel, s') => (OutOfFuel, s')
    end.

Declare Scope monad_scope.
Delimit Scope monad_scope with monad.
Notation "x <- m ;; k" := (bind m (fun x => k))
  (at level 61, m at next level, right associativity) : monad_scope.
Notation "m ;; k" := (bind m (fun _ => k))
  (at level 61, right associativity) : monad_scope.
Open Scope monad_scope.

(** [for x in xs: body(x)] *)
Section ForEach.
Variables (St A : Type) (body : A -> M St unit).

Fixpoint for_each (xs : list A) : M St unit :=
  match xs with
  | [] => ret tt
  | x :: rest => body x ;; for_each rest
  end.
End ForEach.

(** [if cond: raise e] *)
Definition raise_if {St} (cond : bool) (e : exn) : M St unit :=
  if cond then raise e else ret tt.

(** [x is None] *)
Definition is_None {A} (x : option A) : bool :=
  match x with
  | None => true
  | Some _ => false
  end.

(** ** SymbolTable *)

Record SymbolTable : Type := { _symbols : OrderedDict.t Symbol }.

Definition define (symbol : Symbol) : M SymbolTable unit :=
  fun self =>
    (Return tt,
     {| _symbols := OrderedDict.setitem (name symbol) symbol (_symbols self) |}).

Definition lookup (name : string) : M SymbolTable (option Symbol) :=
  fun self =>
    let symbol := OrderedDict.get name (_symbols self) in
    (Return symbol, self).

Definition BUILTINS : list string := ["INTEGER"; "REAL"; "STRING"; "BOOLEAN"].

Definition _init_builtins : M SymbolTable unit :=
  for_each (fun builtin => define (BuiltinTypeSymbol builtin)) BUILTINS.

(** [SymbolTable()]: the state after [__init__]. *)
Definition SymbolTable__init__ : SymbolTable :=
  snd (_init_builtins {| _symbols := OrderedDict.empty Symbol |}).

(** ** AST nodes *)

(** Modelled from the spec: the node classes are defined in the parser, which
    is not part of this module.  The variants are the classes the visitor has
    a [visit_] method for, and the fields are the attributes those methods
    read; [Var] and [Type_] carry the [value] that [visit_Assign],
    [visit_VarDecl] and [visit_Var] read.  The arguments of [Writeln] and the
    body of a [ProcedureDeclaration] are never read by this pass. *)
Record Var_node : Type := Var_ { Var_value : string }.
Record Type_node : Type := Type_ { Type_value : string }.

Inductive node : Type :=
| Program (block : node)
| Block (declarations : list node) (compound_statement : node)
| ProcedureDeclaration (proc_name : string) (block : node)
| Compound (children : list node)
| Condition (condition statement otherwise : node)
| ForLoop (identifier boundary statement : node)
| Writeln (args : list node)
| Assign (left : Var_node) (right : node)
| VarDecl (var : Var_node) (type : Type_node)
| TypeRef (n : Type_node)
| Var (n : Var_node)
| RelOp (left : node) (op : string) (right : node)
| BinOp (left : node) (op : string) (right : node)
| UnaryOp (op : string) (expr : node)
| NoOp
| Num (value : nat)
| String_ (value : string)
| Boolean (value : bool).

(** ** SymbolTableBuilder

    The builder's only attribute is [symtab], so its methods run on the
    symbol table.  Each [visit_] method takes [visit], the dispatching
    [self.visit] of [NodeVisitor], as a parameter. *)
Section Visitor.
Variable visit : node -> M SymbolTable unit.

Definition visit_Program (block : node) : M SymbolTable unit :=
  visit block.

Definition visit_Block (declarations : list node) (compound_statement : node)
  : M SymbolTable unit :=
  for_each visit declarations ;;
  visit compound_statement.

Definition visit_ProcedureDeclaration : M SymbolTable unit := ret tt.

Definition visit_Compound (children : list node) : M SymbolTable unit :=
  for_each visit children.

Definition visit_Condition (condition statement otherwise : node)
  : M SymbolTable unit :=
  visit condition ;;
  visit statement ;;
  visit otherwise.

Definition visit_ForLoop (identifier boundary statement : node)
  : M SymbolTable unit :=
  visit identifier ;;
  visit boundary ;;
  visit statement.

Definition visit_Writeln : M SymbolTable unit := ret tt.

Definition visit_Assign (left : Var_node) (right : node)
  : M SymbolTable unit :=
  let var_name := Var_value left in
  var_symbol <- lookup var_name ;;
  raise_if (is_None var_symbol) (NameError (repr var_name)) ;;
  visit right.

Definition visit_VarDecl (var : Var_node) (type : Type_node)
  : M SymbolTable unit :=
  let type_name := Type_value type in
  type_symbol <- lookup type_name ;;
  let var_name := Var_value var in
  let var_symbol := VarSymbol var_name type_symbol in
  found <- lookup var_name ;;
  raise_if (is_None found) (NameError (declared_more_than_once var_name)) ;;
  define var_symbol.

Definition visit_Type : M SymbolTable unit := ret tt.

Definition visit_Var (n : Var_node) : M SymbolTable unit :=
  let var_name := Var_value n in
  var_symbol <- lookup var_name ;;
  raise_if (is_None var_symbol) (NameError (repr var_name)).

Definition visit_RelOp (left right : node) : M SymbolTable unit :=
  visit left ;;
  visit right.

Definition visit_BinOp (left right : node) : M SymbolTable unit :=
  visit left ;;
  visit right.

Definition visit_UnaryOp (expr : node) : M SymbolTable unit :=
  visit expr.

Definition visit_NoOp : M SymbolTable unit := ret tt.
Definition visit_Num : M SymbolTable unit := ret tt.
Definition visit_String : M SymbolTable unit := ret tt.
Definition visit_Boolean : M SymbolTable unit := ret tt.

(** Modelled from the spec: [NodeVisitor.visit] lives in [node_visitor],
    which is not part of this module; it dispatches on the class of the
    node to the method named after it. *)
Definition dispatch (n : node) : M SymbolTable unit :=
  match n with
  | Program block => visit_Program block
  | Block declarations compound_statement =>
      visit_Block declarations compound_statement
  | ProcedureDeclaration _ _ => visit_ProcedureDeclaration
  | Compound children => visit_Compound children
  | Condition condition statement otherwise =>
      visit_Condition condition statement otherwise
  | ForLoop identifier boundary statement =>
      visit_ForLoop identifier boundary statement
  | Writeln _ => visit_Writeln
  | Assign left' right' => visit_Assign left' right'
  | VarDecl var type => visit_VarDecl var type
  | TypeRef _ => visit_Type
  | Var n => visit_Var n
  | RelOp left' _ right' => visit_RelOp left' right'
  | BinOp left' _ right' => visit_BinOp left' right'
  | UnaryOp _ expr => visit_UnaryOp expr
  | NoOp => visit_NoOp
  | Num _ => visit_Num
  | String_ _ => visit_String
  | Boolean _ => visit_Boolean
  end.
End Visitor.

(** [self.visit] as a recursion on the tree. *)
Fixpoint visit (n : node) : M SymbolTable unit :=
  dispatch visit n.

(** [self.visit] as Python runs it: a general recursion, here bounded by the
    number of nested calls it may make. *)
Fixpoint visit_fuel (fuel : nat) (n : node) : M SymbolTable unit :=
  match fuel with
  | O => fun s => (OutOfFuel, s)
  | S fuel' => dispatch (visit_fuel fuel') n
  end.

Definition build (tree : node) : M SymbolTable unit := visit tree.

(** [SymbolTableBuilder().build(tree)]: the analysis of a program from a
    fresh builder. *)
Definition analyze (tree : node) : outcome unit * SymbolTable :=
  build tree SymbolTable__init__.

(** ** Measures and views of a tree used by the properties *)

(** The number of nested [visit] calls below the call on a node. *)
Fixpoint depth (n : node) : nat :=
  match n with
  | Program block => S (depth block)
  | Block declarations compound_statement =>
      S (Nat.max (list_max (map depth declarations)) (depth compound_statement))
  | Compound children => S (list_max (map depth children))
  | Condition condition statement otherwise =>
      S (Nat.max (depth condition) (Nat.max (depth statement) (depth otherwise)))
  | ForLoop identifier boundary statement =>
      S (Nat.max (depth identifier) (Nat.max (depth boundary) (depth statement)))
  | Assign _ right' => S (depth right')
  | RelOp left' _ right' => S (Nat.max (depth left') (depth right'))
  | BinOp left' _ right' => S (Nat.max (depth left') (depth right'))
  | UnaryOp _ expr => S (depth expr)
  | ProcedureDeclaration _ _ | Writeln _ | VarDecl _ _ | TypeRef _ | Var _
  | NoOp | Num _ | String_ _ | Boolean _ => 0
  end.

(** The names the traversal looks up as variables, in the order it reaches
    them: assignment targets and variable references, outside write
    statements and procedure declarations, which are not traversed. *)
Fixpoint refs (n : node) : list string :=
  match n with
  | Program block => refs block
  | Block declarations compound_statement =>
      flat_map refs declarations ++ refs compound_statement
  | Compound children => flat_map refs children
  | Condition condition statement otherwise =>
      refs condition ++ refs statement ++ refs otherwise
  | ForLoop identifier boundary statement =>
      refs identifier ++ refs boundary ++ refs statement
  | Assign left' right' => Var_value left' :: refs right'
  | Var v => [Var_value v]
  | RelOp left' _ right' => refs left' ++ refs right'
  | BinOp left' _ right' => refs left' ++ refs right'
  | UnaryOp _ expr => refs expr
  | ProcedureDeclaration _ _ | Writeln _ | VarDecl _ _ | TypeRef _
  | NoOp | Num _ | String_ _ | Boolean _ => []
  end.

(** No variable declaration is reached by the traversal of the tree. *)
Fixpoint decl_free (n : node) : bool :=
  match n with
  | Program block => decl_free block
  | Block declarations compound_statement =>
      forallb decl_free declarations && decl_free compound_statement
  | Compound children => forallb decl_free children
  | Condition condition statement otherwise =>
      decl_free condition && decl_free statement && decl_free otherwise
  | ForLoop identifier boundary statement =>
      decl_free identifier && decl_free boundary && decl_free statement
  | Assign _ right' => decl_free right'
  | RelOp left' _ right' => decl_free left' && decl_free right'
  | BinOp left' _ right' => decl_free left' && decl_free right'
  | UnaryOp _ expr => decl_free expr
  | VarDecl _ _ => false
  | ProcedureDeclaration _ _ | Writeln _ | TypeRef _ | Var _
  | NoOp | Num _ | String_ _ | Boolean _ => true
  end.

(** A name has no entry in the table. *)
Definition undeclared (self : SymbolTable) (x : string) : bool :=
  is_None (OrderedDict.get x (_symbols self)).

(** The names a block declares, in order. *)
Definition declared_names (declarations : list node) : list string :=
  flat_map (fun d => match d with
                     | VarDecl var _ => [Var_value var]
                     | _ => []
                     end) declarations.

(** What the traversal of a declaration-free tree amounts to: the names in
    [refs] are looked up one after the other, and the first without an entry
    is reported. *)
Definition check_refs (names : list string) : M SymbolTable unit :=
  fun self =>
    match find (undeclared self) names with
    | Some x => (Raise (NameError (repr x)), self)
    | None => (Return tt, self)
    end.

(** A call came to an end: it returned or it raised. *)
Definition ended {A St} (r : outcome A * St) : Prop :=
  (exists a, fst r = Return a) \/ (exists e, fst r = Raise e).

(** A call left the names of the table, and their order, as they were. *)
Definition keeps_keys (self : SymbolTable) (r : outcome unit * SymbolTable)
  : Prop :=
  OrderedDict.keys (_symbols (snd r)) = OrderedDict.keys (_symbols self).

(** The type names a block's declarations use, in order. *)
Definition declared_types (declarations : list node) : list string :=
  flat_map (fun d => match d with
                     | VarDecl _ type => [Type_value type]
                     | _ => []
                     end) declarations.

(** Every variable name written in a tree, as an assignment target or as a
    variable reference, wherever it stands. *)
Fixpoint mentioned (n : node) : list string :=
  match n with
  | Program block => mentioned block
  | Block declarations compound_statement =>
      flat_map mentioned declarations ++ mentioned compound_statement
  | ProcedureDeclaration _ block => mentioned block
  | Compound children => flat_map mentioned children
  | Condition condition statement otherwise =>
      mentioned condition ++ mentioned statement ++ mentioned otherwise
  | ForLoop identifier boundary statement =>
      mentioned identifier ++ mentioned boundary ++ mentioned statement
  | Writeln args => flat_map mentioned args
  | Assign left' right' => Var_value left' :: mentioned right'
  | Var v => [Var_value v]
  | RelOp left' _ right' => mentioned left' ++ mentioned right'
  | BinOp left' _ right' => mentioned left' ++ mentioned right'
  | UnaryOp _ expr => mentioned expr
  | VarDecl _ _ | TypeRef _ | NoOp | Num _ | String_ _ | Boolean _ => []
  end.

(** [k] calls of a method in a row, collecting what they return. *)
Fixpoint replicateM {St A} (k : nat) (m : M St A) : M St (list A) :=
  match k with
  | O => ret []
  | S k' => a <- m ;; rest <- replicateM k' m ;; ret (a :: rest)
  end.

(** The checks the traversal makes, in the order it reaches them, each given
    by the message it raises when the name it looks up has no entry:
    assignment targets and variable references raise [repr], and so, through
    the test of [visit_VarDecl], does a declaration with its own message. *)
Fixpoint checks (n : node) : list message :=
  match n with
  | Program block => checks block
  | Block declarations compound_statement =>
      flat_map checks declarations ++ checks compound_statement
  | Compound children => flat_map checks children
  | Condition condition statement otherwise =>
      checks condition ++ checks statement ++ checks otherwise
  | ForLoop identifier boundary statement =>
      checks identifier ++ checks boundary ++ checks statement
  | Assign left' right' => repr (Var_value left') :: checks right'
  | VarDecl var _ => [declared_more_than_once (Var_value var)]
  | Var v => [repr (Var_value v)]
  | RelOp left' _ right' => checks left' ++ checks right'
  | BinOp left' _ right' => checks left' ++ checks right'
  | UnaryOp _ expr => checks expr
  | ProcedureDeclaration _ _ | Writeln _ | TypeRef _
  | NoOp | Num _ | String_ _ | Boolean _ => []
  end.

(** The outcome of a list of checks against the names of a table: the
    message of the first check whose name has no entry is raised. *)
Definition verdict (self : SymbolTable) (ms : list message) : outcome unit :=
  match find (fun m => undeclared self (named (NameError m))) ms with
  | Some m => Raise (NameError m)
  | None => Return tt
  end.

(** The names of the variable declarations the traversal reaches. *)
Fixpoint declared (n : node) : list string :=
  match n with
  | Program block => declared block
  | Block declarations compound_statement =>
      flat_map declared declarations ++ declared compound_statement
  | Compound children => flat_map declared children
  | Condition condition statement otherwise =>
      declared condition ++ declared statement ++ declared otherwise
  | ForLoop identifier boundary statement =>
      declared identifier ++ declared boundary ++ declared statement
  | Assign _ right' => declared right'
  | VarDecl var _ => [Var_value var]
  | RelOp left' _ right' => declared left' ++ declared right'
  | BinOp left' _ right' => declared left' ++ declared right'
  | UnaryOp _ expr => declared expr
  | ProcedureDeclaration _ _ | Writeln _ | TypeRef _ | Var _
  | NoOp | Num _ | String_ _ | Boolean _ => []
  end.

(** A tree with the arguments of its write statements and the bodies of its
    procedure declarations emptied. *)
Fixpoint erase (n : node) : node :=
  match n with
  | Program block => Program (erase block)
  | Block declarations compound_statement =>
      Block (map erase declarations) (erase compound_statement)
  | ProcedureDeclaration proc_name _ => ProcedureDeclaration proc_name NoOp
  | Compound children => Compound (map erase children)
  | Condition condition statement otherwise =>
      Condition (erase condition) (erase statement) (erase otherwise)
  | ForLoop identifier boundary statement =>
      ForLoop (erase identifier) (erase boundary) (erase statement)
  | Writeln _ => Writeln []
  | Assign left' right' => Assign left' (erase right')
  | RelOp left' op right' => RelOp (erase left') op (erase right')
  | BinOp left' op right' => BinOp (erase left') op (erase right')
  | UnaryOp op expr => UnaryOp op (erase expr)
  | VarDecl _ _ | TypeRef _ | Var _ | NoOp | Num _ | String_ _ | Boolean _ => n
  end.

(** A table in good order: no name has two entries, and every entry is filed
    under the name of its symbol. *)
Definition table_ok (self : SymbolTable) : Prop :=
  OrderedDict.wf (_symbols self)
  /\ Forall (fun entry => name (snd entry) = fst entry) (_symbols self).

(** The name has an entry, and it is a variable symbol of that name. *)
Definition is_variable (x : string) (self : SymbolTable) : Prop :=
  exists type_symbol,
    OrderedDict.get x (_symbols self) = Some (VarSymbol x type_symbol).

(** Induction on trees, with the hypothesis available for every element of a
    list of children. *)
Section node_induction.
Variable P : node -> Prop.
Hypothesis HProgram : forall b, P b -> P (Program b).
Hypothesis HBlock : forall ds cs, Forall P ds -> P cs -> P (Block ds cs).
Hypothesis HProc : forall nm b, P (ProcedureDeclaration nm b).
Hypothesis HCompound : forall cs, Forall P cs -> P (Compound cs).
Hypothesis HCondition : forall c s o, P c -> P s -> P o -> P (Condition c s o).
Hypothesis HForLoop : forall i b s, P i -> P b -> P s -> P (ForLoop i b s).
Hypothesis HWriteln : forall args, P (Writeln args).
Hypothesis HAssign : forall l r, P r -> P (Assign l r).
Hypothesis HVarDecl : forall v t, P (VarDecl v t).
Hypothesis HTypeRef : forall t, P (TypeRef t).
Hypothesis HVar : forall v, P (Var v).
Hypothesis HRelOp : forall l op r, P l -> P r -> P (RelOp l op r).
Hypothesis HBinOp : forall l op r, P l -> P r -> P (BinOp l op r).
Hypothesis HUnaryOp : forall op e, P e -> P (UnaryOp op e).
Hypothesis HNoOp : P NoOp.
Hypothesis HNum : forall v, P (Num v).
Hypothesis HString : forall v, P (String_ v).
Hypothesis HBoolean : forall v, P (Boolean v).

Fixpoint node_tree_ind (n : node) : P n :=
  let all :=
    fix all (l : list node) : Forall P l :=
      match l with
      | [] => Forall_nil P
      | x :: rest => Forall_cons x (node_tree_ind x) (all rest)
      end in
  match n with
  | Program b => HProgram (node_tree_ind b)
  | Block ds cs => HBlock (all ds) (node_tree_ind cs)
  | ProcedureDeclaration nm b => HProc nm b
  | Compound cs => HCompound (all cs)
  | Condition c s o =>
      HCondition (node_tree_ind c) (node_tree_ind s) (node_tree_ind o)
  | ForLoop i b s =>
      HForLoop (node_tree_ind i) (node_tree_ind b) (node_tree_ind s)
  | Writeln args => HWriteln args
  | Assign l r => HAssign l (node_tree_ind r)
  | VarDecl v t => HVarDecl v t
  | TypeRef t => HTypeRef t
  | Var v => HVar v
  | RelOp l op r => HRelOp op (node_tree_ind l) (node_tree_ind r)
  | BinOp l op r => HBinOp op (node_tree_ind l) (node_tree_ind r)
  | UnaryOp op e => HUnaryOp op (node_tree_ind e)
  | NoOp => HNoOp
  | Num v => HNum v
  | String_ v => HString v
  | Boolean v => HBoolean v
  end.
End node_induction.

(** ** Properties of [OrderedDict] *)

Module OrderedDictFacts.
Import OrderedDict.
Section WithValue.
Variable V : Type.
Implicit Types (d : OrderedDict.t V) (k : string) (v : V).

Lemma get_In k v d : get k d = Some v -> In (k, v) d.
Proof.
  induction d as [|[k' v'] rest IH]; simpl; [discriminate|].
  destruct (String.eqb_spec k k') as [->|_].
  - intros [= ->]. now left.
  - intros H. right. auto.
Qed.

Lemma get_None k d : get k d = None <-> ~ In k (keys d).
Proof.
  induction d as [|[k' v'] rest IH]; simpl.
  - tauto.
  - destruct (String.eqb_spec k k') as [->|Hne].
    + split; [discriminate|]. intros H. exfalso. apply H. now left.
    + rewrite IH. split; intros H; [intros [E|E]|]; auto; congruence.
Qed.

Lemma In_get k v d : wf d -> In (k, v) d -> get k d = Some v.
Proof.
  unfold wf, keys.
  induction d as [|[k' v'] rest IH]; simpl; [tauto|].
  intros Hnd [E|Hin]; inversion Hnd as [|? ? Hnotin Hrest]; subst.
  - injection E as -> ->. now rewrite String.eqb_refl.
  - destruct (String.eqb_spec k k') as [->|_]; [|auto].
    exfalso. apply Hnotin. change k' with (fst (k', v)). now apply in_map.
Qed.

Lemma get_setitem_same k v d : get k (setitem k v d) = Some v.
Proof.
  induction d as [|[k' v'] rest IH]; simpl.
  - now rewrite String.eqb_refl.
  - destruct (String.eqb_spec k k') as [->|Hne]; simpl.
    + now rewrite String.eqb_refl.
    + now destruct (String.eqb_spec k k').
Qed.

Lemma get_setitem_other k k' v d :
  k' <> k -> get k' (setitem k v d) = get k' d.
Proof.
  intros Hne.
  induction d as [|[k0 v0] rest IH]; simpl.
  - now destruct (String.eqb_spec k' k).
  - destruct (String.eqb_spec k k0) as [->|Hk]; simpl.
    + now destruct (String.eqb_spec k' k0).
    + now rewrite IH.
Qed.

(** Assigning to a key that is present keeps the keys and their order. *)
Lemma keys_setitem_present k v d :
  get k d <> None -> keys (setitem k v d) = keys d.
Proof.
  unfold keys.
  induction d as [|[k0 v0] rest IH]; simpl; [congruence|].
  destruct (String.eqb_spec k k0) as [->|Hk]; simpl; [reflexivity|].
  intros H. now rewrite IH.
Qed.

(** Assigning to a new key appends it. *)
Lemma keys_setitem_absent k v d :
  get k d = None -> keys (setitem k v d) = (keys d ++ [k])%list.
Proof.
  unfold keys.
  induction d as [|[k0 v0] rest IH]; simpl; [reflexivity|].
  destruct (String.eqb_spec k k0) as [->|Hk]; simpl; [discriminate|].
  intros H. now rewrite IH.
Qed.

Lemma wf_setitem k v d : wf d -> wf (setitem k v d).
Proof.
  intros Hwf. unfold wf.
  destruct (get k d) eqn:E.
  - rewrite keys_setitem_present; [exact Hwf | congruence].
  - rewrite keys_setitem_absent by exact E.
    apply NoDup_app; [exact Hwf | repeat constructor; simpl; tauto |].
    intros x Hx [<-|[]]. now apply get_None in E.
Qed.
End WithValue.
End OrderedDictFacts.

(** ** Properties of [SymbolTable] *)

Import OrderedDictFacts.

(** C5: a freshly constructed table holds exactly the four builtin names
    INTEGER, REAL, STRING, BOOLEAN, in that insertion order, each bound to
    the builtin-type symbol of that name, and looking up each of the four
    returns that symbol. *)
Theorem fresh_table_builtins :
  _symbols SymbolTable__init__ =
    [("INTEGER", BuiltinTypeSymbol "INTEGER");
     ("REAL", BuiltinTypeSymbol "REAL");
     ("STRING", BuiltinTypeSymbol "STRING");
     ("BOOLEAN", BuiltinTypeSymbol "BOOLEAN")]
  /\ OrderedDict.keys (_symbols SymbolTable__init__) = BUILTINS
  /\ Forall (fun builtin =>
       lookup builtin SymbolTable__init__ =
         (Return (Some (BuiltinTypeSymbol builtin)), SymbolTable__init__))
     BUILTINS.
Proof.
  split; [reflexivity|]. split; [reflexivity|].
  repeat constructor.
Qed.

Lemma fresh_table_wf : OrderedDict.wf (_symbols SymbolTable__init__).
Proof.
  unfold OrderedDict.wf. simpl.
  repeat constructor; simpl; intuition discriminate.
Qed.

Lemma define_wf symbol self r self' :
  OrderedDict.wf (_symbols self) ->
  define symbol self = (r, self') ->
  OrderedDict.wf (_symbols self').
Proof.
  intros Hwf [= _ <-]. simpl. now apply wf_setitem.
Qed.

(** C6: on every table and for every name, [lookup] returns (it never
    raises) and leaves the table as it was; what it returns is the symbol
    bound to the name when there is one, and [None] exactly when the name has
    no entry. *)
Theorem lookup_returns_binding (self : SymbolTable) (name : string)
  (Hwf : OrderedDict.wf (_symbols self)) :
  exists r : option Symbol,
    lookup name self = (Return r, self)
    /\ (forall symbol, r = Some symbol <-> In (name, symbol) (_symbols self))
    /\ (r = None <-> ~ In name (OrderedDict.keys (_symbols self))).
Proof.
  exists (OrderedDict.get name (_symbols self)).
  split; [reflexivity|]. split.
  - intros symbol. split.
    + apply get_In.
    + now apply In_get.
  - apply get_None.
Qed.

Lemma lookup_returns_binding_witness :
  OrderedDict.wf (_symbols SymbolTable__init__)
  /\ exists r : option Symbol,
       lookup "REAL" SymbolTable__init__ = (Return r, SymbolTable__init__)
       /\ (forall symbol,
             r = Some symbol <-> In ("REAL", symbol) (_symbols SymbolTable__init__))
       /\ (r = None <->
           ~ In "REAL" (OrderedDict.keys (_symbols SymbolTable__init__))).
Proof.
  split.
  - exact fresh_table_wf.
  - exact (@lookup_returns_binding SymbolTable__init__ "REAL" fresh_table_wf).
Defined.

(** C7: any number of consecutive [lookup] calls for one name, with no
    [define] in between, all return what the first returns, and the table is
    still the one they started from. *)
Theorem lookup_idempotent (self : SymbolTable) (name : string) (k : nat) :
  exists r : option Symbol,
    lookup name self = (Return r, self)
    /\ replicateM k (lookup name) self = (Return (repeat r k), self)
    /\ (r1 <- lookup name ;; r2 <- lookup name ;; ret (r1, r2)) self
       = (Return (r, r), self).
Proof.
  exists (OrderedDict.get name (_symbols self)).
  split; [reflexivity|]. split; [|reflexivity].
  induction k as [|k IH]; simpl; [reflexivity|].
  unfold bind at 1. simpl. unfold bind at 1. now rewrite IH.
Qed.

(** ** Properties of [visit_VarDecl] *)

(** What [visit_VarDecl] does, by whether the variable name has an entry. *)
Lemma visit_VarDecl_unfold var type self :
  visit_VarDecl var type self =
    if undeclared self (Var_value var)
    then (Raise (NameError (declared_more_than_once (Var_value var))), self)
    else define (VarSymbol (Var_value var)
                   (OrderedDict.get (Type_value type) (_symbols self))) self.
Proof.
  unfold visit_VarDecl, undeclared, bind, lookup, raise_if.
  destruct (OrderedDict.get (Var_value var) (_symbols self)); reflexivity.
Qed.

(** C9: when visiting a variable declaration raises, the table after the
    raise is the table from before the node was visited: the exception
    leaves before any [define]. *)
Theorem visit_VarDecl_raise_keeps_table var type self e self' :
  visit (VarDecl var type) self = (Raise e, self') -> self' = self.
Proof.
  simpl. rewrite visit_VarDecl_unfold.
  destruct (undeclared self (Var_value var)).
  - now intros [= _ <-].
  - unfold define. discriminate.
Qed.

Lemma visit_VarDecl_raise_keeps_table_witness :
  visit (VarDecl (Var_ "x") (Type_ "INTEGER")) SymbolTable__init__
    = (Raise (NameError (declared_more_than_once "x")), SymbolTable__init__)
  /\ SymbolTable__init__ = SymbolTable__init__.
Proof.
  split; [reflexivity|].
  apply (@visit_VarDecl_raise_keeps_table (Var_ "x") (Type_ "INTEGER")
           SymbolTable__init__ (NameError (declared_more_than_once "x"))
           SymbolTable__init__).
  reflexivity.
Defined.

(** C10: a variable declaration whose name already has an entry in the
    table, one of the builtin type names included, does not raise: it
    returns, and the entry for the name now holds the new variable symbol; no
    other entry changes and no entry is added. *)
Theorem visit_VarDecl_overwrites var type self :
  undeclared self (Var_value var) = false ->
  let var_symbol :=
    VarSymbol (Var_value var)
      (OrderedDict.get (Type_value type) (_symbols self)) in
  exists self',
    visit (VarDecl var type) self = (Return tt, self')
    /\ lookup (Var_value var) self' = (Return (Some var_symbol), self')
    /\ (forall other, other <> Var_value var ->
          fst (lookup other self') = fst (lookup other self))
    /\ OrderedDict.keys (_symbols self') = OrderedDict.keys (_symbols self).
Proof.
  intros Hbound var_symbol. simpl.
  rewrite visit_VarDecl_unfold, Hbound. unfold define. simpl.
  eexists. split; [reflexivity|]. unfold lookup. simpl.
  split; [| split].
  - now rewrite get_setitem_same.
  - intros other Hne. now rewrite get_setitem_other.
  - apply keys_setitem_present.
    unfold undeclared in Hbound.
    destruct (OrderedDict.get (Var_value var) (_symbols self));
      [discriminate | discriminate Hbound].
Qed.

Lemma visit_VarDecl_overwrites_witness :
  undeclared SymbolTable__init__ "INTEGER" = false
  /\ lookup "INTEGER" SymbolTable__init__
       = (Return (Some (BuiltinTypeSymbol "INTEGER")), SymbolTable__init__)
  /\ exists self',
       visit (VarDecl (Var_ "INTEGER") (Type_ "REAL")) SymbolTable__init__
         = (Return tt, self')
       /\ lookup "INTEGER" self'
            = (Return (Some (VarSymbol "INTEGER"
                               (Some (BuiltinTypeSymbol "REAL")))), self')
       /\ (forall other, other <> "INTEGER" ->
             fst (lookup other self') = fst (lookup other SymbolTable__init__))
       /\ OrderedDict.keys (_symbols self')
            = OrderedDict.keys (_symbols SymbolTable__init__).
Proof.
  split; [reflexivity|]. split; [reflexivity|].
  apply (@visit_VarDecl_overwrites (Var_ "INTEGER") (Type_ "REAL")
           SymbolTable__init__).
  reflexivity.
Defined.

(** C3, as the code has it: for a variable declaration whose type name has no
    entry in the table there is no unknown-type check.  Whether the visit
    returns or raises, and the exception it raises, are the same as for any
    other type name; and when the visit returns, the table binds the variable
    name to a variable symbol whose type is the not-found result [None]. *)
Theorem visit_VarDecl_unknown_type var type self :
  undeclared self (Type_value type) = true ->
  (forall type',
     fst (visit (VarDecl var type') self) = fst (visit (VarDecl var type) self))
  /\ (forall self',
        visit (VarDecl var type) self = (Return tt, self') ->
        lookup (Var_value var) self'
          = (Return (Some (VarSymbol (Var_value var) None)), self')).
Proof.
  intros Hty. simpl. split.
  - intros type'. rewrite !visit_VarDecl_unfold.
    now destruct (undeclared self (Var_value var)).
  - intros self'. rewrite visit_VarDecl_unfold.
    destruct (undeclared self (Var_value var)); [discriminate|].
    unfold undeclared in Hty.
    destruct (OrderedDict.get (Type_value type) (_symbols self));
      [discriminate|].
    unfold define. intros [= <-]. unfold lookup. simpl.
    now rewrite get_setitem_same.
Qed.

Lemma visit_VarDecl_unknown_type_witness :
  undeclared SymbolTable__init__ "FOO" = true
  /\ (forall type',
        fst (visit (VarDecl (Var_ "INTEGER") type') SymbolTable__init__)
        = fst (visit (VarDecl (Var_ "INTEGER") (Type_ "FOO")) SymbolTable__init__))
  /\ (forall self',
        visit (VarDecl (Var_ "INTEGER") (Type_ "FOO")) SymbolTable__init__
          = (Return tt, self') ->
        lookup "INTEGER" self'
          = (Return (Some (VarSymbol "INTEGER" None)), self')).
Proof.
  split; [reflexivity|].
  apply (@visit_VarDecl_unknown_type (Var_ "INTEGER") (Type_ "FOO")
           SymbolTable__init__).
  reflexivity.
Defined.

(** C3 as stated fails: the type name FOO has no entry in a
    fresh table, yet declaring [INTEGER : FOO] on it returns normally and
    stores a variable symbol with a missing type. *)
Lemma unknown_type_is_accepted :
  lookup "FOO" SymbolTable__init__ = (Return None, SymbolTable__init__)
  /\ visit (VarDecl (Var_ "INTEGER") (Type_ "FOO")) SymbolTable__init__
     = (Return tt,
        {| _symbols :=
             [("INTEGER", VarSymbol "INTEGER" None);
              ("REAL", BuiltinTypeSymbol "REAL");
              ("STRING", BuiltinTypeSymbol "STRING");
              ("BOOLEAN", BuiltinTypeSymbol "BOOLEAN")] |}).
Proof.
  split; reflexivity.
Qed.

(** ** Properties of the traversal *)

Lemma bind_ext {St A B} (m m' : M St A) (k k' : A -> M St B) (s : St) :
  m s = m' s -> (forall a s', k a s' = k' a s') -> bind m k s = bind m' k' s.
Proof.
  intros Hm Hk. unfold bind. rewrite Hm.
  destruct (m' s) as [[a| |] s']; auto.
Qed.

Lemma for_each_ext {St A} (f g : A -> M St unit) (xs : list A) :
  Forall (fun x => forall s, f x s = g x s) xs ->
  forall s, for_each f xs s = for_each g xs s.
Proof.
  induction 1 as [|x rest Hx _ IH]; intros s; simpl; [reflexivity|].
  apply bind_ext; auto.
Qed.

(** Enough fuel makes the bounded recursion agree with the recursion on the
    tree. *)
Lemma visit_fuel_enough (n : node) :
  forall fuel self, depth n < fuel -> visit_fuel fuel n self = visit n self.
Proof.
  induction n using node_tree_ind; intros [|fuel] self Hd;
    try (exfalso; lia); simpl in Hd; simpl; try reflexivity.
  - apply IHn. lia.
  - unfold visit_Block. apply bind_ext.
    + apply for_each_ext.
      assert (Hmax : list_max (map depth ds) < fuel) by lia. clear Hd.
      induction H as [|d rest Hd _ IH]; constructor; simpl in Hmax.
      * intros s. apply Hd. lia.
      * apply IH. lia.
    + intros _ s. apply IHn. lia.
  - unfold visit_Compound. apply for_each_ext.
    assert (Hmax : list_max (map depth cs) < fuel) by lia. clear Hd.
    induction H as [|d rest Hd _ IH]; constructor; simpl in Hmax.
    + intros s. apply Hd. lia.
    + apply IH. lia.
  - unfold visit_Condition.
    apply bind_ext; [apply IHn1; lia|]. intros _ s1.
    apply bind_ext; [apply IHn2; lia|]. intros _ s2. apply IHn3. lia.
  - unfold visit_ForLoop.
    apply bind_ext; [apply IHn1; lia|]. intros _ s1.
    apply bind_ext; [apply IHn2; lia|]. intros _ s2. apply IHn3. lia.
  - unfold visit_Assign.
    apply bind_ext; [reflexivity|]. intros sym s1.
    apply bind_ext; [reflexivity|]. intros _ s2. apply IHn. lia.
  - unfold visit_RelOp.
    apply bind_ext; [apply IHn1; lia|]. intros _ s1. apply IHn2. lia.
  - unfold visit_BinOp.
    apply bind_ext; [apply IHn1; lia|]. intros _ s1. apply IHn2. lia.
  - apply IHn. lia.
Qed.

Lemma ended_bind {St A B} (m : M St A) (k : A -> M St B) (s : St) :
  ended (m s) -> (forall a s', ended (k a s')) -> ended (bind m k s).
Proof.
  unfold ended, bind. intros [[a Ha]|[e He]] Hk;
    destruct (m s) as [[a'| |] s']; simpl in *; try discriminate; auto.
  right. eauto.
Qed.

Lemma ended_for_each {St A} (f : A -> M St unit) (xs : list A) :
  Forall (fun x => forall s, ended (f x s)) xs ->
  forall s, ended (for_each f xs s).
Proof.
  induction 1 as [|x rest Hx _ IH]; intros s; simpl.
  - left. now exists tt.
  - apply ended_bind; auto.
Qed.

(** The recursion on the tree never reports exhausted fuel. *)
Lemma visit_ended (n : node) : forall self, ended (visit n self).
Proof.
  induction n using node_tree_ind; intros self; simpl;
    try (left; now exists tt).
  - apply IHn.
  - apply ended_bind; [now apply ended_for_each | auto].
  - now apply ended_for_each.
  - repeat (apply ended_bind; [auto | intros ? ?]). auto.
  - repeat (apply ended_bind; [auto | intros ? ?]). auto.
  - unfold visit_Assign, bind, lookup, raise_if. simpl.
    destruct (OrderedDict.get (Var_value l) (_symbols self)); simpl; auto.
    right. now eexists.
  - rewrite visit_VarDecl_unfold.
    destruct (undeclared self (Var_value v)); [right; now eexists|].
    left. now exists tt.
  - unfold visit_Var, bind, lookup, raise_if. simpl.
    destruct (OrderedDict.get (Var_value v) (_symbols self)); simpl.
    + left. now exists tt.
    + right. now eexists.
  - apply ended_bind; auto.
  - apply ended_bind; auto.
  - apply IHn.
Qed.

(** C8: on every tree and from every table, the traversal comes to an end.
    The recursive [visit], run with any call budget above the depth of the
    tree, stays within the budget and gives the result of [build], and that
    result is a normal return or a raised exception. *)
Theorem traversal_terminates (tree : node) (self : SymbolTable) (extra : nat) :
  visit_fuel (S (depth tree) + extra) tree self = build tree self
  /\ ended (build tree self).
Proof.
  split.
  - apply visit_fuel_enough. lia.
  - apply visit_ended.
Qed.

Lemma check_refs_app (xs ys : list string) (self : SymbolTable) :
  check_refs (xs ++ ys) self = (check_refs xs ;; check_refs ys) self.
Proof.
  unfold check_refs, bind.
  induction xs as [|x rest IH]; simpl.
  - now destruct (find (undeclared self) ys).
  - destruct (undeclared self x); [reflexivity | exact IH].
Qed.

Lemma check_refs_for_each (xs : list node) :
  Forall (fun x => decl_free x = true ->
                   forall self, visit x self = check_refs (refs x) self) xs ->
  forallb decl_free xs = true ->
  forall self, for_each visit xs self = check_refs (flat_map refs xs) self.
Proof.
  induction 1 as [|x rest Hx _ IH]; simpl; intros Hfree self; [reflexivity|].
  apply andb_prop in Hfree as [Hx' Hrest].
  rewrite check_refs_app. apply bind_ext; auto.
Qed.

(** The traversal of a tree without declarations is the check of its
    references in order. *)
Lemma visit_check_refs (n : node) :
  decl_free n = true -> forall self, visit n self = check_refs (refs n) self.
Proof.
  induction n using node_tree_ind; simpl; intros Hfree self;
    try discriminate; try reflexivity;
    repeat match type of Hfree with
           | _ && _ = true => apply andb_prop in Hfree as [Hfree ?]
           end.
  - auto.
  - unfold visit_Block. rewrite check_refs_app.
    apply bind_ext; [now apply check_refs_for_each | auto].
  - now apply check_refs_for_each.
  - unfold visit_Condition. rewrite check_refs_app.
    apply bind_ext; [auto|]. intros _ s1.
    rewrite check_refs_app. apply bind_ext; auto.
  - unfold visit_ForLoop. rewrite check_refs_app.
    apply bind_ext; [auto|]. intros _ s1.
    rewrite check_refs_app. apply bind_ext; auto.
  - unfold visit_Assign, check_refs, bind, lookup, raise_if, undeclared. simpl.
    destruct (OrderedDict.get (Var_value l) (_symbols self)); simpl;
      [|reflexivity].
    now rewrite IHn.
  - unfold visit_Var, check_refs, bind, lookup, raise_if, undeclared. simpl.
    now destruct (OrderedDict.get (Var_value v) (_symbols self)).
  - unfold visit_RelOp. rewrite check_refs_app. apply bind_ext; auto.
  - unfold visit_BinOp. rewrite check_refs_app. apply bind_ext; auto.
  - auto.
Qed.

(** C4, as the code has it: on a tree in which the traversal reaches no
    variable declaration, and from any table, the analysis looks up, in
    traversal order, every assignment target and every variable reference
    (operands of binary, relational and unary operators, conditions, for-loop
    index and boundary; not those under write statements or procedure
    declarations, which are skipped).  It raises the undeclared-name error
    for the first of these names that has no entry in the table, and returns
    normally when there is none; the table is unchanged either way. *)
Theorem first_undeclared_name_raises (tree : node) (self : SymbolTable) :
  decl_free tree = true ->
  build tree self =
    match find (undeclared self) (refs tree) with
    | Some x => (Raise (NameError (repr x)), self)
    | None => (Return tt, self)
    end.
Proof.
  intros Hfree. exact (visit_check_refs tree Hfree self).
Qed.

Lemma first_undeclared_name_raises_witness :
  let tree :=
    Program (Block []
      (Compound
         [ForLoop (Var (Var_ "INTEGER"))
            (BinOp (Var (Var_ "n")) "+" (Num 1))
            (Assign (Var_ "total") (UnaryOp "-" (Var (Var_ "m"))))])) in
  decl_free tree = true
  /\ refs tree = ["INTEGER"; "n"; "total"; "m"]
  /\ build tree SymbolTable__init__
     = (Raise (NameError (repr "n")), SymbolTable__init__).
Proof.
  intros tree. split; [reflexivity|]. split; [reflexivity|].
  apply (@first_undeclared_name_raises tree SymbolTable__init__).
  reflexivity.
Defined.

(** C4 as stated fails.  The program
    [begin writeln(z + 1); a := 1; b := 2 end] declares nothing; it mentions
    z as an operand of a binary operator and b as an assignment target, yet
    the error its analysis raises names neither: the write statement is
    skipped, and the traversal stops at a, the first undeclared name it
    reaches. *)
Lemma undeclared_names_not_reported :
  let declarations := [] in
  let body :=
    Compound [Writeln [BinOp (Var (Var_ "z")) "+" (Num 1)];
              Assign (Var_ "a") (Num 1);
              Assign (Var_ "b") (Num 2)] in
  let program := Program (Block declarations body) in
  declared_names declarations = []
  /\ In "z" (mentioned program)
  /\ In "b" (mentioned program)
  /\ analyze program = (Raise (NameError (repr "a")), SymbolTable__init__)
  /\ named (NameError (repr "a")) <> "z"
  /\ named (NameError (repr "a")) <> "b".
Proof.
  simpl. repeat split; auto; discriminate.
Qed.

(** ** The table never gains a name *)

Lemma keeps_keys_bind (m : M SymbolTable unit) (k : unit -> M SymbolTable unit)
  (s : SymbolTable) :
  keeps_keys s (m s) -> (forall a s', keeps_keys s' (k a s')) ->
  keeps_keys s (bind m k s).
Proof.
  unfold keeps_keys, bind. intros Hm Hk.
  destruct (m s) as [[a| |] s']; simpl in *; auto.
  now rewrite Hk.
Qed.

Lemma keeps_keys_for_each (xs : list node) :
  Forall (fun x => forall s, keeps_keys s (visit x s)) xs ->
  forall s, keeps_keys s (for_each visit xs s).
Proof.
  induction 1 as [|x rest Hx _ IH]; intros s; simpl; [reflexivity|].
  apply keeps_keys_bind; auto.
Qed.

(** Whatever the tree, the names in the table after the traversal are those
    from before it, in the same order: a declaration is only ever defined
    over an entry that is already there. *)
Lemma visit_keeps_keys (n : node) : forall self, keeps_keys self (visit n self).
Proof.
  induction n using node_tree_ind; intros self; simpl; try reflexivity.
  - apply IHn.
  - apply keeps_keys_bind; [now apply keeps_keys_for_each | auto].
  - now apply keeps_keys_for_each.
  - repeat (apply keeps_keys_bind; [auto | intros ? ?]). auto.
  - repeat (apply keeps_keys_bind; [auto | intros ? ?]). auto.
  - unfold visit_Assign, bind, lookup, raise_if. simpl.
    destruct (OrderedDict.get (Var_value l) (_symbols self)); simpl;
      [apply IHn | reflexivity].
  - rewrite visit_VarDecl_unfold.
    destruct (undeclared self (Var_value v)) eqn:E; [reflexivity|].
    unfold keeps_keys, define. simpl. apply keys_setitem_present.
    unfold undeclared in E.
    destruct (OrderedDict.get (Var_value v) (_symbols self));
      [discriminate | discriminate E].
  - unfold visit_Var, bind, lookup, raise_if. simpl.
    now destruct (OrderedDict.get (Var_value v) (_symbols self)).
  - apply keeps_keys_bind; auto.
  - apply keeps_keys_bind; auto.
  - apply IHn.
Qed.

(** The traversal keeps the table a well-formed dict. *)
Lemma visit_wf (n : node) (self : SymbolTable) :
  OrderedDict.wf (_symbols self) -> OrderedDict.wf (_symbols (snd (visit n self))).
Proof.
  unfold OrderedDict.wf. now rewrite (visit_keeps_keys n self).
Qed.

(** After the analysis of any program the names in the table are the four
    builtin names. *)
Lemma analyze_keys (tree : node) :
  OrderedDict.keys (_symbols (snd (analyze tree))) = BUILTINS.
Proof.
  unfold analyze, build. now rewrite (visit_keeps_keys tree SymbolTable__init__).
Qed.

(** ** The analysis of whole programs *)

(** C1, on the code: the program
    [x : INTEGER; y : REAL; begin x := y; if x then writeln(x) else writeln(y) end]
    declares no name twice, uses builtin types only and references declared
    variables only, yet its analysis raises at the declaration of x, with
    the "declared more than once" message, and the table holds the four
    builtins and no variable symbol. *)
Theorem well_formed_program_is_rejected :
  let x := Var_ "x" in
  let y := Var_ "y" in
  let declarations :=
    [VarDecl x (Type_ "INTEGER"); VarDecl y (Type_ "REAL")] in
  let body :=
    Compound [Assign x (Var y);
              Condition (Var x) (Writeln [Var x]) (Writeln [Var y])] in
  NoDup (declared_names declarations)
  /\ incl (declared_types declarations) BUILTINS
  /\ incl (mentioned body) (declared_names declarations)
  /\ analyze (Program (Block declarations body))
     = (Raise (NameError (declared_more_than_once "x")), SymbolTable__init__).
Proof.
  simpl. split; [|split; [|split]].
  - repeat constructor; simpl; intuition discriminate.
  - intros t [<-|[<-|[]]]; simpl; auto.
  - intros t H; simpl in H. intuition (subst; simpl; auto).
  - reflexivity.
Qed.

(** C2, on the code: in the program [y : INTEGER; x : INTEGER; x : REAL] the
    name declared twice is x, but the analysis raises at the first
    declaration, whose name y is not in the table, and the "declared more
    than once" error names y. *)
Theorem duplicate_declaration_error_names_fresh_name :
  let declarations :=
    [VarDecl (Var_ "y") (Type_ "INTEGER");
     VarDecl (Var_ "x") (Type_ "INTEGER");
     VarDecl (Var_ "x") (Type_ "REAL")] in
  declared_names declarations = ["y"; "x"; "x"]
  /\ undeclared SymbolTable__init__ "y" = true
  /\ analyze (Program (Block declarations (Compound [])))
     = (Raise (NameError (declared_more_than_once "y")), SymbolTable__init__).
Proof.
  repeat split.
Qed.

(** ** Laws of [define] and [lookup] *)

(** X1: [define] never raises, and right after [define(symbol)] a lookup of
    any name returns [symbol] when the name is [symbol.name] and what it
    returned before the call otherwise. *)
Theorem define_then_lookup (symbol : Symbol) (other : string)
  (self : SymbolTable) :
  fst (define symbol self) = Return tt
  /\ (define symbol ;; lookup other) self
     = (Return (if String.eqb other (name symbol)
                then Some symbol
                else OrderedDict.get other (_symbols self)),
        snd (define symbol self)).
Proof.
  split; [reflexivity|].
  unfold bind, define, lookup. simpl. f_equal. f_equal.
  destruct (String.eqb_spec other (name symbol)) as [->|Hne].
  - apply get_setitem_same.
  - now apply get_setitem_other.
Qed.

(** X2: [define] of a name that has an entry keeps the names of the table and
    their order; [define] of a name without one appends it after all the
    others. *)
Theorem define_keys (symbol : Symbol) (self : SymbolTable) :
  OrderedDict.keys (_symbols (snd (define symbol self))) =
    if undeclared self (name symbol)
    then (OrderedDict.keys (_symbols self) ++ [name symbol])%list
    else OrderedDict.keys (_symbols self).
Proof.
  unfold define, undeclared. simpl.
  destruct (OrderedDict.get (name symbol) (_symbols self)) eqn:E; simpl.
  - apply keys_setitem_present. congruence.
  - now apply keys_setitem_absent.
Qed.

Lemma find_app_first {A} (f : A -> bool) (xs ys : list A) :
  find f (xs ++ ys) =
    match find f xs with
    | Some x => Some x
    | None => find f ys
    end.
Proof.
  induction xs as [|x rest IH]; simpl; [reflexivity|].
  now destruct (f x).
Qed.

Lemma for_each_define (symbols : list Symbol) (n : string) :
  forall self,
    fst (for_each define symbols self) = Return tt
    /\ OrderedDict.get n (_symbols (snd (for_each define symbols self))) =
         match find (fun s => String.eqb (name s) n) (rev symbols) with
         | Some s => Some s
         | None => OrderedDict.get n (_symbols self)
         end.
Proof.
  induction symbols as [|s rest IH]; intros self; simpl.
  - now split.
  - unfold bind. simpl.
    destruct (IH {| _symbols :=
                      OrderedDict.setitem (name s) s (_symbols self) |})
      as [Hret Hget].
    split; [exact Hret|]. rewrite Hget, find_app_first. simpl.
    destruct (find (fun s0 => String.eqb (name s0) n) (rev rest));
      [reflexivity|].
    destruct (String.eqb_spec (name s) n) as [<-|Hne].
    + apply get_setitem_same.
    + apply get_setitem_other. congruence.
Qed.

(** X3: after any sequence of [define] calls, the last symbol defined under
    a name is the one [lookup] returns for it; a name none of the calls
    defined keeps the result it had before them. *)
Theorem lookup_after_defines (symbols : list Symbol) (n : string)
  (self : SymbolTable) :
  (for_each define symbols ;; lookup n) self =
    (Return (match find (fun s => String.eqb (name s) n) (rev symbols) with
             | Some s => Some s
             | None => OrderedDict.get n (_symbols self)
             end),
     snd (for_each define symbols self)).
Proof.
  destruct (for_each_define symbols n self) as [Hret Hget].
  unfold bind, lookup.
  destruct (for_each define symbols self) as [[[]| |] s']; simpl in *;
    try discriminate.
  now rewrite Hget.
Qed.

(** X4: run on any table, [_init_builtins] returns, binds each of the four
    builtin names to the builtin-type symbol of that name, whatever was
    bound to it, and leaves the binding of every other name as it was. *)
Theorem init_builtins_on_any_table (self : SymbolTable) (n : string) :
  (_init_builtins ;; lookup n) self =
    (Return (if existsb (String.eqb n) BUILTINS
             then Some (BuiltinTypeSymbol n)
             else OrderedDict.get n (_symbols self)),
     snd (_init_builtins self)).
Proof.
  unfold _init_builtins, BUILTINS, bind, lookup, define. simpl.
  f_equal. f_equal.
  destruct (String.eqb_spec n "BOOLEAN") as [->|H4];
    [now rewrite get_setitem_same|].
  rewrite get_setitem_other by assumption.
  destruct (String.eqb_spec n "STRING") as [->|H3];
    [now rewrite get_setitem_same|].
  rewrite get_setitem_other by assumption.
  destruct (String.eqb_spec n "REAL") as [->|H2];
    [now rewrite get_setitem_same|].
  rewrite get_setitem_other by assumption.
  destruct (String.eqb_spec n "INTEGER") as [->|H1];
    [now rewrite get_setitem_same|].
  now rewrite get_setitem_other by assumption.
Qed.

Lemma setitem_filed (k : string) (symbol : Symbol)
  (d : OrderedDict.t Symbol) :
  name symbol = k ->
  Forall (fun entry => name (snd entry) = fst entry) d ->
  Forall (fun entry => name (snd entry) = fst entry)
         (OrderedDict.setitem k symbol d).
Proof.
  intros Hk. induction 1 as [|[k' v'] rest Hx Hrest IH]; simpl.
  - now repeat constructor.
  - destruct (String.eqb_spec k k') as [Heq|Hne]; constructor; simpl; auto.
    congruence.
Qed.

Lemma fresh_table_ok : table_ok SymbolTable__init__.
Proof.
  split; [exact fresh_table_wf|]. simpl. now repeat constructor.
Qed.

(** X5: [define] keeps a table in good order (no name with two entries,
    every entry filed under the name of its symbol), and on such a table a
    symbol that [lookup] returns carries the name that was looked up. *)
Theorem define_keeps_table_ok (symbol : Symbol) (self : SymbolTable) :
  table_ok self ->
  table_ok (snd (define symbol self))
  /\ forall n found, fst (lookup n self) = Return (Some found) ->
                     name found = n.
Proof.
  intros [Hwf Hfiled]. split.
  - split; simpl; [now apply wf_setitem | now apply setitem_filed].
  - unfold lookup. simpl. intros n found [= Hget].
    apply get_In in Hget.
    rewrite Forall_forall in Hfiled. exact (Hfiled _ Hget).
Qed.

Lemma define_keeps_table_ok_witness :
  table_ok SymbolTable__init__
  /\ table_ok (snd (define (VarSymbol "x" None) SymbolTable__init__))
  /\ forall n found,
       fst (lookup n SymbolTable__init__) = Return (Some found) ->
       name found = n.
Proof.
  split; [exact fresh_table_ok|].
  exact (@define_keeps_table_ok (VarSymbol "x" None) SymbolTable__init__
           fresh_table_ok).
Defined.

(** ** What a traversal does to the table *)

(** A relation between the table before and the table after that holds
    across every [define] of [visit_VarDecl] holds across every traversal,
    whether it returns or raises. *)
Section TraversalRelation.
Variable R : SymbolTable -> SymbolTable -> Prop.
Variable allowed : string -> Prop.
Hypothesis R_refl : forall s, R s s.
Hypothesis R_trans : forall s1 s2 s3, R s1 s2 -> R s2 s3 -> R s1 s3.
Hypothesis R_define : forall var_name type_symbol self,
  allowed var_name -> undeclared self var_name = false ->
  R self (snd (define (VarSymbol var_name type_symbol) self)).

Lemma rel_bind {A B} (m : M SymbolTable A) (k : A -> M SymbolTable B)
  (s : SymbolTable) :
  R s (snd (m s)) -> (forall a s', R s' (snd (k a s'))) ->
  R s (snd (bind m k s)).
Proof.
  unfold bind. intros Hm Hk.
  destruct (m s) as [[a| |] s1]; simpl in *; auto.
  eapply R_trans; [exact Hm | apply Hk].
Qed.

Lemma rel_for_each (xs : list node) :
  Forall (fun x => Forall allowed (declared x) ->
                   forall s, R s (snd (visit x s))) xs ->
  Forall allowed (flat_map declared xs) ->
  forall s, R s (snd (for_each visit xs s)).
Proof.
  induction 1 as [|x rest Hx Hrest IH]; simpl; intros Hall s.
  - apply R_refl.
  - apply Forall_app in Hall as [Hall1 Hall2].
    apply rel_bind; auto.
Qed.

Lemma visit_rel (n : node) :
  Forall allowed (declared n) -> forall self, R self (snd (visit n self)).
Proof.
  induction n using node_tree_ind; simpl; intros Hall self;
    try apply R_refl;
    repeat match type of Hall with
           | Forall _ (_ ++ _) =>
               apply Forall_app in Hall as [? Hall]
           end.
  - auto.
  - apply rel_bind; [now apply rel_for_each | auto].
  - now apply rel_for_each.
  - apply rel_bind; [auto|]. intros _ s1. apply rel_bind; auto.
  - apply rel_bind; [auto|]. intros _ s1. apply rel_bind; auto.
  - unfold visit_Assign. apply rel_bind; [apply R_refl|]. intros sym s1.
    apply rel_bind; [destruct (is_None sym); apply R_refl | auto].
  - rewrite visit_VarDecl_unfold.
    destruct (undeclared self (Var_value v)) eqn:E; [apply R_refl|].
    apply R_define; [now inversion Hall | exact E].
  - unfold visit_Var. apply rel_bind; [apply R_refl|]. intros sym s1.
    destruct (is_None sym); apply R_refl.
  - apply rel_bind; auto.
  - apply rel_bind; auto.
  - auto.
Qed.
End TraversalRelation.

Lemma Forall_trivial {A} (xs : list A) : Forall (fun _ => True) xs.
Proof.
  induction xs; constructor; auto.
Qed.

(** X6: a traversal, whether it returns or raises, keeps the table in good
    order: no name gets a second entry and every entry stays filed under the
    name of its symbol. *)
Theorem traversal_keeps_table_ok (tree : node) (self : SymbolTable) :
  table_ok self -> table_ok (snd (build tree self)).
Proof.
  unfold build.
  apply (@visit_rel (fun s s' => table_ok s -> table_ok s')
                    (fun _ => True)); auto.
  - intros var_name type_symbol s _ _ [Hwf Hfiled].
    split; simpl; [now apply wf_setitem | now apply setitem_filed].
  - apply Forall_trivial.
Qed.

Lemma traversal_keeps_table_ok_witness :
  table_ok SymbolTable__init__
  /\ table_ok
       (snd (build (Program (Block [VarDecl (Var_ "REAL") (Type_ "INTEGER")]
                              (Compound [Assign (Var_ "x") (Num 1)])))
                   SymbolTable__init__)).
Proof.
  split; [exact fresh_table_ok|].
  exact (@traversal_keeps_table_ok
           (Program (Block [VarDecl (Var_ "REAL") (Type_ "INTEGER")]
                       (Compound [Assign (Var_ "x") (Num 1)])))
           SymbolTable__init__ fresh_table_ok).
Defined.

(** X7: a traversal neither adds a name to the table nor removes or moves
    one: after it, returned or raised, the names of the table and their
    order are those from before.  From a fresh builder they are the four
    builtin names, whatever the program declares. *)
Theorem traversal_keeps_names (tree : node) (self : SymbolTable) :
  OrderedDict.keys (_symbols (snd (build tree self)))
    = OrderedDict.keys (_symbols self)
  /\ OrderedDict.keys (_symbols (snd (analyze tree))) = BUILTINS.
Proof.
  split.
  - exact (visit_keeps_keys tree self).
  - exact (visit_keeps_keys tree SymbolTable__init__).
Qed.

(** X11: a traversal leaves alone the entry of every name that no variable
    declaration it reaches declares: looking the name up afterwards gives
    what it gave before. *)
Theorem traversal_frame (tree : node) (self : SymbolTable) (x : string) :
  ~ In x (declared tree) ->
  fst (lookup x (snd (build tree self))) = fst (lookup x self).
Proof.
  intros Hx. unfold build, lookup. simpl. f_equal.
  apply (@visit_rel
           (fun s s' => OrderedDict.get x (_symbols s')
                        = OrderedDict.get x (_symbols s))
           (fun y => y <> x)).
  - reflexivity.
  - intros s1 s2 s3 H12 H23. now rewrite H23.
  - intros var_name type_symbol s Hne _. simpl.
    apply get_setitem_other. congruence.
  - apply Forall_forall. intros y Hy ->. contradiction.
Qed.

Lemma traversal_frame_witness :
  let tree :=
    Block [VarDecl (Var_ "INTEGER") (Type_ "REAL")] (Compound []) in
  ~ In "REAL" (declared tree)
  /\ fst (lookup "INTEGER" (snd (build tree SymbolTable__init__)))
     = Return (Some (VarSymbol "INTEGER" (Some (BuiltinTypeSymbol "REAL"))))
  /\ fst (lookup "REAL" (snd (build tree SymbolTable__init__)))
     = fst (lookup "REAL" SymbolTable__init__).
Proof.
  intros tree.
  assert (Hx : ~ In "REAL" (declared tree))
    by (simpl; intros [H|[]]; discriminate H).
  split; [exact Hx|]. split; [reflexivity|].
  exact (@traversal_frame tree SymbolTable__init__ "REAL" Hx).
Defined.

(** ** The outcome of a traversal *)

Lemma undeclared_keys (s1 s2 : SymbolTable) (x : string) :
  OrderedDict.keys (_symbols s1) = OrderedDict.keys (_symbols s2) ->
  undeclared s1 x = undeclared s2 x.
Proof.
  intros Hkeys. unfold undeclared.
  destruct (OrderedDict.get x (_symbols s1)) eqn:E1;
    destruct (OrderedDict.get x (_symbols s2)) eqn:E2; try reflexivity;
    exfalso.
  - apply get_None in E2. rewrite <- Hkeys in E2. apply get_None in E2.
    congruence.
  - apply get_None in E1. rewrite Hkeys in E1. apply get_None in E1.
    congruence.
Qed.

Lemma verdict_keys (s1 s2 : SymbolTable) (ms : list message) :
  OrderedDict.keys (_symbols s1) = OrderedDict.keys (_symbols s2) ->
  verdict s1 ms = verdict s2 ms.
Proof.
  intros Hkeys. unfold verdict.
  induction ms as [|m rest IH]; cbn [find]; [reflexivity|].
  rewrite (undeclared_keys _ _ _ Hkeys).
  now destruct (undeclared s2 (named (NameError m))).
Qed.

Lemma verdict_app (self : SymbolTable) (ms1 ms2 : list message) :
  verdict self (ms1 ++ ms2) =
    match verdict self ms1 with
    | Return _ => verdict self ms2
    | r => r
    end.
Proof.
  unfold verdict. rewrite find_app_first.
  now destruct (find (fun m => undeclared self (named (NameError m))) ms1).
Qed.

Lemma verdict_bind (m : M SymbolTable unit) (k : unit -> M SymbolTable unit)
  (s : SymbolTable) (ms1 ms2 : list message) :
  keeps_keys s (m s) ->
  fst (m s) = verdict s ms1 ->
  (forall a s', fst (k a s') = verdict s' ms2) ->
  fst (bind m k s) = verdict s (ms1 ++ ms2).
Proof.
  unfold keeps_keys, bind. intros Hkeys Hm Hk. rewrite verdict_app, <- Hm.
  destruct (m s) as [[a| |] s1]; simpl in *; try reflexivity.
  rewrite Hk. now apply verdict_keys.
Qed.

Lemma verdict_for_each (xs : list node) :
  Forall (fun x => forall s, fst (visit x s) = verdict s (checks x)) xs ->
  forall s, fst (for_each visit xs s) = verdict s (flat_map checks xs).
Proof.
  induction 1 as [|x rest Hx Hrest IH]; simpl; intros s; [reflexivity|].
  apply verdict_bind; auto. apply visit_keeps_keys.
Qed.

(** The outcome of a traversal is the verdict of its checks against the
    table it starts from. *)
Lemma visit_verdict (n : node) :
  forall self, fst (visit n self) = verdict self (checks n).
Proof.
  induction n using node_tree_ind; simpl; intros self; try reflexivity.
  - auto.
  - apply verdict_bind; auto.
    + apply (visit_keeps_keys (Compound ds)).
    + now apply verdict_for_each.
  - now apply verdict_for_each.
  - apply verdict_bind; [apply visit_keeps_keys | auto |]. intros _ s1.
    apply verdict_bind; [apply visit_keeps_keys | auto | auto].
  - apply verdict_bind; [apply visit_keeps_keys | auto |]. intros _ s1.
    apply verdict_bind; [apply visit_keeps_keys | auto | auto].
  - unfold visit_Assign, verdict, bind, lookup, raise_if, undeclared. simpl.
    destruct (OrderedDict.get (Var_value l) (_symbols self)); simpl;
      [apply IHn | reflexivity].
  - rewrite visit_VarDecl_unfold. unfold verdict. simpl.
    now destruct (undeclared self (Var_value v)).
  - unfold visit_Var, verdict, bind, lookup, raise_if, undeclared. simpl.
    now destruct (OrderedDict.get (Var_value v) (_symbols self)).
  - apply verdict_bind; [apply visit_keeps_keys | auto | auto].
  - apply verdict_bind; [apply visit_keeps_keys | auto | auto].
  - auto.
Qed.

(** X8: on every tree and from every table, whether the analysis returns or
    raises is decided by the names of the table it starts from.  Going
    through the assignment targets, variable references and variable
    declarations in traversal order (write statements and procedure
    declarations apart), it raises at the first whose name has no entry:
    [repr(name)] for a target or reference, the "declared more than once"
    message for a declaration.  It returns when every one of these names has
    an entry. *)
Theorem traversal_outcome (tree : node) (self : SymbolTable) :
  fst (build tree self) =
    match find (fun m => undeclared self (named (NameError m))) (checks tree)
    with
    | Some m => Raise (NameError m)
    | None => Return tt
    end.
Proof.
  exact (visit_verdict tree self).
Qed.

(** X9: an exception that the analysis raises names an identifier that has
    no entry in the table the analysis started from, and none in the table
    it leaves behind; the exception is the one of an assignment target,
    variable reference or declaration of the tree. *)
Theorem raised_name_has_no_entry (tree : node) (self self' : SymbolTable)
  (e : exn) :
  build tree self = (Raise e, self') ->
  undeclared self (named e) = true
  /\ undeclared self' (named e) = true
  /\ exists m, e = NameError m /\ In m (checks tree).
Proof.
  intros Hrun.
  assert (Hfst : fst (visit tree self) = Raise e)
    by (unfold build in Hrun; now rewrite Hrun).
  assert (Hkeys : keeps_keys self (visit tree self))
    by apply visit_keeps_keys.
  unfold keeps_keys, build in *. rewrite Hrun in Hkeys. simpl in Hkeys.
  rewrite visit_verdict in Hfst. unfold verdict in Hfst.
  destruct (find (fun m => undeclared self (named (NameError m)))
                 (checks tree)) as [m|] eqn:F; [|discriminate].
  injection Hfst as <-. apply find_some in F as [Hin Hund].
  split; [exact Hund|]. split.
  - now rewrite (undeclared_keys self' self _ Hkeys).
  - now exists m.
Qed.

Lemma raised_name_has_no_entry_witness :
  let tree := Compound [Assign (Var_ "REAL") (Var (Var_ "n"))] in
  build tree SymbolTable__init__
    = (Raise (NameError (repr "n")), SymbolTable__init__)
  /\ undeclared SymbolTable__init__ "n" = true
  /\ undeclared SymbolTable__init__ "n" = true
  /\ exists m, NameError (repr "n") = NameError m /\ In m (checks tree).
Proof.
  intros tree. split; [reflexivity|].
  apply (@raised_name_has_no_entry tree SymbolTable__init__
           SymbolTable__init__ (NameError (repr "n"))).
  reflexivity.
Defined.

(** X10: the analysis never looks at what a name is bound to.  From two
    tables with the same names it ends the same way on every tree: the same
    return, or the same exception. *)
Theorem outcome_depends_on_names_only (tree : node) (s1 s2 : SymbolTable) :
  OrderedDict.keys (_symbols s1) = OrderedDict.keys (_symbols s2) ->
  fst (build tree s1) = fst (build tree s2).
Proof.
  intros Hkeys. unfold build. rewrite !visit_verdict.
  now apply verdict_keys.
Qed.

Lemma outcome_depends_on_names_only_witness :
  let s2 :=
    {| _symbols :=
         [("INTEGER", VarSymbol "INTEGER" None);
          ("REAL", BuiltinTypeSymbol "REAL");
          ("STRING", BuiltinTypeSymbol "STRING");
          ("BOOLEAN", VarSymbol "BOOLEAN" None)] |} in
  let tree :=
    Compound [Assign (Var_ "INTEGER") (Var (Var_ "BOOLEAN"));
              Assign (Var_ "x") (Num 1)] in
  OrderedDict.keys (_symbols SymbolTable__init__)
    = OrderedDict.keys (_symbols s2)
  /\ fst (build tree SymbolTable__init__) = Raise (NameError (repr "x"))
  /\ fst (build tree SymbolTable__init__) = fst (build tree s2).
Proof.
  intros s2 tree. split; [reflexivity|]. split; [reflexivity|].
  apply (@outcome_depends_on_names_only tree SymbolTable__init__ s2).
  reflexivity.
Defined.

(** ** What a traversal that returns has defined *)

Lemma bind_Return_inv {St A B} (m : M St A) (k : A -> M St B) (s s' : St)
  (b : B) :
  bind m k s = (Return b, s') ->
  exists a s1, m s = (Return a, s1) /\ k a s1 = (Return b, s').
Proof.
  unfold bind. destruct (m s) as [[a| |] s1]; try discriminate.
  intros H. now exists a, s1.
Qed.

(** A name bound to a variable symbol of that name stays so across a
    traversal. *)
Lemma visit_keeps_variable (x : string) (n : node) (self : SymbolTable) :
  is_variable x self -> is_variable x (snd (visit n self)).
Proof.
  apply (@visit_rel (fun s s' => is_variable x s -> is_variable x s')
                    (fun _ => True)); auto.
  - intros var_name type_symbol s _ _ [t Ht]. unfold is_variable. simpl.
    destruct (String.eqb_spec x var_name) as [->|Hne].
    + exists type_symbol. apply get_setitem_same.
    + exists t. now rewrite get_setitem_other.
  - apply Forall_trivial.
Qed.

Lemma visit_keeps_variable_to (x : string) (n : node)
  (self self' : SymbolTable) (r : outcome unit) :
  visit n self = (r, self') -> is_variable x self -> is_variable x self'.
Proof.
  intros Hrun Hx. apply (visit_keeps_variable n) in Hx.
  now rewrite Hrun in Hx.
Qed.

Lemma declared_bound_for_each (x : string) (xs : list node) :
  Forall (fun n => forall self self',
            visit n self = (Return tt, self') ->
            In x (declared n) -> is_variable x self') xs ->
  forall self self',
    for_each visit xs self = (Return tt, self') ->
    In x (flat_map declared xs) -> is_variable x self'.
Proof.
  induction 1 as [|n rest Hn Hrest IH]; simpl; intros self self' Hrun Hin;
    [contradiction|].
  apply bind_Return_inv in Hrun as ([] & s1 & H1 & H2).
  apply in_app_or in Hin as [Hin|Hin].
  - apply (@visit_keeps_variable_to x (Compound rest) s1 self' (Return tt));
      [exact H2 | eauto].
  - eauto.
Qed.

Lemma declared_bound (x : string) (n : node) :
  forall self self',
    visit n self = (Return tt, self') ->
    In x (declared n) -> is_variable x self'.
Proof.
  induction n using node_tree_ind; simpl; intros self self' Hrun Hin;
    try contradiction.
  - eauto.
  - apply bind_Return_inv in Hrun as ([] & s1 & H1 & H2).
    apply in_app_or in Hin as [Hin|Hin].
    + eapply visit_keeps_variable_to; [exact H2|].
      eapply declared_bound_for_each; eauto.
    + eauto.
  - eapply declared_bound_for_each; eauto.
  - apply bind_Return_inv in Hrun as ([] & s1 & H1 & Hrun).
    apply bind_Return_inv in Hrun as ([] & s2 & H2 & H3).
    apply in_app_or in Hin as [Hin|Hin];
      [|apply in_app_or in Hin as [Hin|Hin]].
    + eapply visit_keeps_variable_to; [exact H3|].
      eapply visit_keeps_variable_to; [exact H2|]. eauto.
    + eapply visit_keeps_variable_to; [exact H3|]. eauto.
    + eauto.
  - apply bind_Return_inv in Hrun as ([] & s1 & H1 & Hrun).
    apply bind_Return_inv in Hrun as ([] & s2 & H2 & H3).
    apply in_app_or in Hin as [Hin|Hin];
      [|apply in_app_or in Hin as [Hin|Hin]].
    + eapply visit_keeps_variable_to; [exact H3|].
      eapply visit_keeps_variable_to; [exact H2|]. eauto.
    + eapply visit_keeps_variable_to; [exact H3|]. eauto.
    + eauto.
  - unfold visit_Assign in Hrun.
    apply bind_Return_inv in Hrun as (sym & s1 & H1 & Hrun).
    apply bind_Return_inv in Hrun as ([] & s2 & H2 & H3). eauto.
  - destruct Hin as [<-|[]].
    rewrite visit_VarDecl_unfold in Hrun.
    destruct (undeclared self (Var_value v)); [discriminate|].
    unfold define in Hrun. injection Hrun as <-.
    eexists. simpl. apply get_setitem_same.
  - apply bind_Return_inv in Hrun as ([] & s1 & H1 & H2).
    apply in_app_or in Hin as [Hin|Hin].
    + eapply visit_keeps_variable_to; [exact H2|]. eauto.
    + eauto.
  - apply bind_Return_inv in Hrun as ([] & s1 & H1 & H2).
    apply in_app_or in Hin as [Hin|Hin].
    + eapply visit_keeps_variable_to; [exact H2|]. eauto.
    + eauto.
  - eauto.
Qed.

(** X12: when the analysis of a tree returns, every name that a variable
    declaration reached by the traversal declares is bound, in the table it
    leaves, to a variable symbol of that name; no later node of the tree
    binds it to anything else. *)
Theorem declared_names_are_variables (tree : node)
  (self self' : SymbolTable) (x : string) :
  build tree self = (Return tt, self') ->
  In x (declared tree) ->
  exists type_symbol,
    lookup x self' = (Return (Some (VarSymbol x type_symbol)), self').
Proof.
  intros Hrun Hin.
  destruct (declared_bound x tree self Hrun Hin) as [t Ht].
  exists t. unfold lookup. simpl. now rewrite Ht.
Qed.

Lemma declared_names_are_variables_witness :
  let tree :=
    Program (Block [VarDecl (Var_ "REAL") (Type_ "INTEGER");
                    VarDecl (Var_ "STRING") (Type_ "REAL")]
               (Compound [Assign (Var_ "REAL") (Var (Var_ "STRING"))])) in
  let self' :=
    {| _symbols :=
         [("INTEGER", BuiltinTypeSymbol "INTEGER");
          ("REAL", VarSymbol "REAL" (Some (BuiltinTypeSymbol "INTEGER")));
          ("STRING",
           VarSymbol "STRING"
             (Some (VarSymbol "REAL" (Some (BuiltinTypeSymbol "INTEGER")))));
          ("BOOLEAN", BuiltinTypeSymbol "BOOLEAN")] |} in
  build tree SymbolTable__init__ = (Return tt, self')
  /\ In "STRING" (declared tree)
  /\ exists type_symbol,
       lookup "STRING" self'
         = (Return (Some (VarSymbol "STRING" type_symbol)), self').
Proof.
  intros tree self'.
  assert (Hin : In "STRING" (declared tree)) by (simpl; auto).
  split; [reflexivity|]. split; [exact Hin|].
  exact (@declared_names_are_variables tree SymbolTable__init__ self'
           "STRING" eq_refl Hin).
Defined.

(** ** How traversals compose *)

Lemma for_each_app {St A} (f : A -> M St unit) (xs ys : list A) :
  forall s, for_each f (xs ++ ys) s = (for_each f xs ;; for_each f ys) s.
Proof.
  induction xs as [|x rest IH]; intros s; simpl; [reflexivity|].
  unfold bind in *.
  destruct (f x s) as [[a| |] s1]; [apply IH | reflexivity | reflexivity].
Qed.

(** X13: visiting a compound statement is visiting its children one after
    the other: the traversal of [xs ++ ys] is the traversal of [xs] followed,
    when that returns, by the traversal of [ys] from the table it left; when
    the first raises, that exception and table are the result and [ys] is
    not visited. *)
Theorem compound_app (xs ys : list node) (self : SymbolTable) :
  visit (Compound (xs ++ ys)) self =
    match visit (Compound xs) self with
    | (Return _, self') => visit (Compound ys) self'
    | (r, self') => (r, self')
    end.
Proof.
  simpl. unfold visit_Compound. rewrite for_each_app. unfold bind.
  now destruct (for_each visit xs self) as [[a| |] s1].
Qed.

(** ** What the traversal does not read *)

Lemma for_each_map {St A} (f : A -> M St unit) (g : A -> A) (xs : list A) :
  Forall (fun x => forall s, f (g x) s = f x s) xs ->
  forall s, for_each f (map g xs) s = for_each f xs s.
Proof.
  induction 1 as [|x rest Hx Hrest IH]; intros s; simpl; [reflexivity|].
  apply bind_ext; auto.
Qed.

(** X14: the analysis does not read the arguments of a write statement nor
    the body of a procedure declaration: emptying them all leaves the
    outcome and the resulting table of the analysis of any tree the same. *)
Theorem erased_tree_same_analysis (tree : node) (self : SymbolTable) :
  build (erase tree) self = build tree self.
Proof.
  unfold build. revert self.
  induction tree using node_tree_ind; intros self; simpl;
    try reflexivity.
  - auto.
  - unfold visit_Block. apply bind_ext; [now apply for_each_map | auto].
  - unfold visit_Compound. now apply for_each_map.
  - unfold visit_Condition.
    apply bind_ext; [auto|]. intros _ s1. apply bind_ext; auto.
  - unfold visit_ForLoop.
    apply bind_ext; [auto|]. intros _ s1. apply bind_ext; auto.
  - unfold visit_Assign.
    apply bind_ext; [reflexivity|]. intros sym s1. apply bind_ext; auto.
  - unfold visit_RelOp. apply bind_ext; auto.
  - unfold visit_BinOp. apply bind_ext; auto.
  - auto.
Qed.

(** X15: a builder can be used again: run once more on the table it left,
    whether it returned or raised, the analysis of the same tree ends the
    way it ended the first time. *)
Theorem analysis_again_same_outcome (tree : node) (self : SymbolTable) :
  fst (build tree (snd (build tree self))) = fst (build tree self).
Proof.
  unfold build. rewrite !visit_verdict.
  apply verdict_keys. apply visit_keeps_keys.
Qed.
